(** * Metaspace chunk allocation sequences and the SpaceManager

    A shallow embedding of
      - [memory/metaspace/chunkAllocSequence.cpp] (the constant chunk
        allocation sequences and their selector), and
      - [memory/metaspace/spaceManager.cpp] (the SpaceManager constructor),
    together with the properties the design document states about them.

    Conventions.  A C++ [int] or [size_t] is a [Z]; where the code converts
    between the two the wrap-around is written out ([to_int]).  Code that can
    stop the VM or leave defined behaviour returns a [result]; code that
    reaches objects through pointers runs in the state-and-error monad
    [vm].  *)

From Stdlib Require Import ZArith List Lia Bool String.
Import ListNotations.
Local Open Scope Z_scope.

(* ------------------------------------------------------------------ *)
(** * Chunk levels *)

(** Modelled from the spec: [memory/metaspace/chunkLevel.hpp] is not part of
    the sources at hand.  The level identifiers are the ones the code names
    ([chklvl::CHUNK_LEVEL_4M], ...); the ladder is the binary buddy ladder
    of the design document, every level half the size of the next larger
    one, from the largest configured level (4M) down to the smallest (1K). *)
Inductive chklvl_t : Type :=
| CHUNK_LEVEL_4M
| CHUNK_LEVEL_2M
| CHUNK_LEVEL_1M
| CHUNK_LEVEL_512K
| CHUNK_LEVEL_256K
| CHUNK_LEVEL_128K
| CHUNK_LEVEL_64K
| CHUNK_LEVEL_32K
| CHUNK_LEVEL_16K
| CHUNK_LEVEL_8K
| CHUNK_LEVEL_4K
| CHUNK_LEVEL_2K
| CHUNK_LEVEL_1K.

Definition K : Z := 1024.
Definition M : Z := K * K.

(** Modelled from the spec: the byte size a level identifier names. *)
Definition chunk_byte_size (lvl : chklvl_t) : Z :=
  match lvl with
  | CHUNK_LEVEL_4M => 4 * M
  | CHUNK_LEVEL_2M => 2 * M
  | CHUNK_LEVEL_1M => 1 * M
  | CHUNK_LEVEL_512K => 512 * K
  | CHUNK_LEVEL_256K => 256 * K
  | CHUNK_LEVEL_128K => 128 * K
  | CHUNK_LEVEL_64K => 64 * K
  | CHUNK_LEVEL_32K => 32 * K
  | CHUNK_LEVEL_16K => 16 * K
  | CHUNK_LEVEL_8K => 8 * K
  | CHUNK_LEVEL_4K => 4 * K
  | CHUNK_LEVEL_2K => 2 * K
  | CHUNK_LEVEL_1K => 1 * K
  end.

(** The ladder, smallest level first. *)
Definition ladder : list chklvl_t :=
  [ CHUNK_LEVEL_1K; CHUNK_LEVEL_2K; CHUNK_LEVEL_4K; CHUNK_LEVEL_8K;
    CHUNK_LEVEL_16K; CHUNK_LEVEL_32K; CHUNK_LEVEL_64K; CHUNK_LEVEL_128K;
    CHUNK_LEVEL_256K; CHUNK_LEVEL_512K; CHUNK_LEVEL_1M; CHUNK_LEVEL_2M;
    CHUNK_LEVEL_4M ].

(* ------------------------------------------------------------------ *)
(** * Outcomes *)

(** How a piece of VM code can end other than by returning. *)
Inductive vm_error : Type :=
| AssertFailed (msg : string)   (* assert(cond, msg) in a debug build *)
| ShouldNotReachHereHit         (* ShouldNotReachHere(): the VM stops *)
| UndefinedBehaviour            (* a read outside an array or through a
                                   pointer that designates no object *)
| ContractMisuse.               (* a caller broke a documented contract *)

Inductive result (A : Type) : Type :=
| Ok (a : A)
| Err (e : vm_error).
Arguments Ok {A} a.
Arguments Err {A} e.

Definition result_bind {A B} (r : result A) (k : A -> result B) : result B :=
  match r with
  | Ok a => k a
  | Err e => Err e
  end.

(** [assert(cond, msg)] of utilities/debug.hpp, as a debug build runs it. *)
Definition assert (cond : bool) (msg : string) : result unit :=
  if cond then Ok tt else Err (AssertFailed msg).

(** [a[i]] on a C array whose extent is the length of the list. *)
Definition array_read {A} (a : list A) (i : Z) : result A :=
  if i <? 0 then Err UndefinedBehaviour
  else match nth_error a (Z.to_nat i) with
       | Some x => Ok x
       | None => Err UndefinedBehaviour
       end.

(** Conversion of a [size_t] to a 32-bit [int]. *)
Definition to_int (z : Z) : Z := (z + 2 ^ 31) mod 2 ^ 32 - 2 ^ 31.

(* ------------------------------------------------------------------ *)
(** * ConstantChunkAllocSequence *)

(** [_entries] points to a [static const] array; as nothing can write to
    it, the record holds the array itself.  [_num_entries] is kept as its
    own field: the constructor takes it separately from the array. *)
Record ConstantChunkAllocSequence : Type := {
  _entries : list chklvl_t;
  _num_entries : Z
}.

Definition ConstantChunkAllocSequence_ctor
    (array : list chklvl_t) (num_entries : Z)
  : result ConstantChunkAllocSequence :=
  let this := {| _entries := array; _num_entries := num_entries |} in
  result_bind (assert (0 <? _num_entries this) "must not be empty.")
              (fun _ => Ok this).

(** The subscript [get_next_chunk_level] applies to [_entries]. *)
Definition entry_index (this : ConstantChunkAllocSequence)
    (num_allocated : Z) : Z :=
  if num_allocated >=? _num_entries this
  then _num_entries this - 1       (* caller shall repeat last allocation *)
  else num_allocated.

Definition get_next_chunk_level (this : ConstantChunkAllocSequence)
    (num_allocated : Z) : result chklvl_t :=
  if num_allocated >=? _num_entries this
  then array_read (_entries this) (_num_entries this - 1)
  else array_read (_entries this) num_allocated.

(* ------------------------------------------------------------------ *)
(** * The hard-coded sequences *)

Definition g_sequ_standard_non_class : list chklvl_t :=
  [ CHUNK_LEVEL_4K; CHUNK_LEVEL_4K; CHUNK_LEVEL_4K; CHUNK_LEVEL_4K;
    CHUNK_LEVEL_16K ].

Definition g_sequ_standard_class : list chklvl_t :=
  [ CHUNK_LEVEL_2K; CHUNK_LEVEL_2K; CHUNK_LEVEL_2K; CHUNK_LEVEL_2K;
    CHUNK_LEVEL_16K ].

Definition g_sequ_anon_non_class : list chklvl_t := [ CHUNK_LEVEL_1K ].

Definition g_sequ_anon_class : list chklvl_t := [ CHUNK_LEVEL_1K ].

Definition g_sequ_refl_non_class : list chklvl_t :=
  [ CHUNK_LEVEL_2K; CHUNK_LEVEL_1K ].

Definition g_sequ_refl_class : list chklvl_t := [ CHUNK_LEVEL_1K ].

Definition g_sequ_boot_non_class : list chklvl_t :=
  [ CHUNK_LEVEL_4M; CHUNK_LEVEL_1M ].

Definition g_sequ_boot_class : list chklvl_t :=
  [ CHUNK_LEVEL_1M; CHUNK_LEVEL_256K ].

(** The argument of [DEFINE_CLASS_FOR_ARRAY]; [what] names the static
    object [g_chunk_alloc_sequence_##what]. *)
Inductive what : Type :=
| standard_non_class
| standard_class
| anon_non_class
| anon_class
| refl_non_class
| refl_class
| boot_non_class
| boot_class.

Definition what_eqb (a b : what) : bool :=
  match a, b with
  | standard_non_class, standard_non_class
  | standard_class, standard_class
  | anon_non_class, anon_non_class
  | anon_class, anon_class
  | refl_non_class, refl_non_class
  | refl_class, refl_class
  | boot_non_class, boot_non_class
  | boot_class, boot_class => true
  | _, _ => false
  end.

(** [g_sequ_##what] *)
Definition g_sequ (w : what) : list chklvl_t :=
  match w with
  | standard_non_class => g_sequ_standard_non_class
  | standard_class => g_sequ_standard_class
  | anon_non_class => g_sequ_anon_non_class
  | anon_class => g_sequ_anon_class
  | refl_non_class => g_sequ_refl_non_class
  | refl_class => g_sequ_refl_class
  | boot_non_class => g_sequ_boot_non_class
  | boot_class => g_sequ_boot_class
  end.

(* ------------------------------------------------------------------ *)
(** * Code that runs against VM state *)

(** A computation over a state [S] that returns, or stops with an error. *)
Definition vm (S A : Type) : Type := S -> result (A * S).

Definition ret {S A} (a : A) : vm S A := fun s => Ok (a, s).

Definition bind {S A B} (m : vm S A) (k : A -> vm S B) : vm S B :=
  fun s => match m s with
           | Ok (a, s') => k a s'
           | Err e => Err e
           end.

Definition lift_result {S A} (r : result A) : vm S A :=
  fun s => match r with
           | Ok a => Ok (a, s)
           | Err e => Err e
           end.

Definition stop {S A} (e : vm_error) : vm S A := fun _ => Err e.

(** What a run returned, the final state left aside. *)
Definition returned {S A} (r : result (A * S)) : result A :=
  match r with
  | Ok (a, _) => Ok a
  | Err e => Err e
  end.

Notation "x <- m ;; k" := (bind m (fun x => k))
  (at level 61, m at next level, right associativity).
Notation "m ;;; k" := (bind m (fun _ => k))
  (at level 61, right associativity).

(** Modelled from the spec: [ShouldNotReachHere()] of utilities/debug.hpp is
    not part of the sources at hand; the design document has it fatal. *)
Definition ShouldNotReachHere {S} : vm S unit := stop ShouldNotReachHereHit.

(** A pointer to an object named by a [T], or the null pointer. *)
Inductive pointer (T : Type) : Type :=
| NULL
| Ptr (target : T).
Arguments NULL {T}.
Arguments Ptr {T} target.

(** The static sequence objects that exist so far, in the order in which
    their initialisers ran. *)
Definition statics : Type := list (what * ConstantChunkAllocSequence).

Fixpoint static_object (sigma : statics) (w : what)
  : option ConstantChunkAllocSequence :=
  match sigma with
  | [] => None
  | (w', obj) :: rest => if what_eqb w w' then Some obj
                         else static_object rest w
  end.

(** [static ConstantChunkAllocSequence g_chunk_alloc_sequence_##what
     (g_sequ_##what, sizeof(g_sequ_##what)/sizeof(chklvl_t));] *)
Definition DEFINE_CLASS_FOR_ARRAY (w : what) : vm statics unit :=
  obj <- lift_result
           (ConstantChunkAllocSequence_ctor
              (g_sequ w) (to_int (Z.of_nat (List.length (g_sequ w))))) ;;
  fun sigma => Ok (tt, sigma ++ [(w, obj)]).

(** The eight definitions of the translation unit, in source order. *)
Definition static_initialization : vm statics unit :=
  DEFINE_CLASS_FOR_ARRAY standard_non_class ;;;
  DEFINE_CLASS_FOR_ARRAY standard_class ;;;
  DEFINE_CLASS_FOR_ARRAY anon_non_class ;;;
  DEFINE_CLASS_FOR_ARRAY anon_class ;;;
  DEFINE_CLASS_FOR_ARRAY refl_non_class ;;;
  DEFINE_CLASS_FOR_ARRAY refl_class ;;;
  DEFINE_CLASS_FOR_ARRAY boot_non_class ;;;
  DEFINE_CLASS_FOR_ARRAY boot_class.

(** The static objects once the initialisers have run. *)
Definition g_chunk_alloc_sequence : statics :=
  [ (standard_non_class,
     {| _entries := g_sequ_standard_non_class; _num_entries := 5 |});
    (standard_class,
     {| _entries := g_sequ_standard_class; _num_entries := 5 |});
    (anon_non_class,
     {| _entries := g_sequ_anon_non_class; _num_entries := 1 |});
    (anon_class,
     {| _entries := g_sequ_anon_class; _num_entries := 1 |});
    (refl_non_class,
     {| _entries := g_sequ_refl_non_class; _num_entries := 2 |});
    (refl_class,
     {| _entries := g_sequ_refl_class; _num_entries := 1 |});
    (boot_non_class,
     {| _entries := g_sequ_boot_non_class; _num_entries := 2 |});
    (boot_class,
     {| _entries := g_sequ_boot_class; _num_entries := 2 |}) ].

(** [p->get_next_chunk_level(num_allocated)] through a
    [const ChunkAllocSequence*]: the only class that implements the
    virtual method is [ConstantChunkAllocSequence]. *)
Definition virtual_get_next_chunk_level (p : pointer what)
    (num_allocated : Z) : vm statics chklvl_t :=
  fun sigma =>
    match p with
    | NULL => Err UndefinedBehaviour
    | Ptr w =>
        match static_object sigma w with
        | None => Err UndefinedBehaviour
        | Some this =>
            lift_result (get_next_chunk_level this num_allocated) sigma
        end
    end.

(** The same method with its accesses to memory written out.  A member of
    the object [this] points to is read by a load from the store; the store
    is threaded through the body like through any other code, so a body
    that wrote to it would hand back a different one. *)

(** [this->_num_entries] *)
Definition load_num_entries (this : pointer what) : vm statics Z :=
  fun sigma =>
    match this with
    | NULL => Err UndefinedBehaviour
    | Ptr w =>
        match static_object sigma w with
        | None => Err UndefinedBehaviour
        | Some obj => Ok (_num_entries obj, sigma)
        end
    end.

(** [this->_entries[k]] *)
Definition load_entry (this : pointer what) (k : Z) : vm statics chklvl_t :=
  fun sigma =>
    match this with
    | NULL => Err UndefinedBehaviour
    | Ptr w =>
        match static_object sigma w with
        | None => Err UndefinedBehaviour
        | Some obj => lift_result (array_read (_entries obj) k) sigma
        end
    end.

(** The body of [ConstantChunkAllocSequence::get_next_chunk_level],
    statement by statement. *)
Definition get_next_chunk_level_body (this : pointer what)
    (num_allocated : Z) : vm statics chklvl_t :=
  n <- load_num_entries this ;;
  if num_allocated >=? n
  then (last_count <- load_num_entries this ;;
        load_entry this (last_count - 1))
  else load_entry this num_allocated.

(* ------------------------------------------------------------------ *)
(** * Selecting a sequence by space type *)

(** Modelled from the spec: [memory/metaspace/metaspaceEnums.hpp] is not part
    of the sources at hand.  The four enumerators are the ones the selector
    names; [OtherMetaspaceType] stands for every other value a variable of
    the enumeration type can hold. *)
Inductive MetaspaceType : Type :=
| StandardMetaspaceType
| ReflectionMetaspaceType
| UnsafeAnonymousMetaspaceType
| BootMetaspaceType
| OtherMetaspaceType (raw : Z).

Definition recognized (space_type : MetaspaceType) : bool :=
  match space_type with
  | OtherMetaspaceType _ => false
  | _ => true
  end.

Definition alloc_sequence_by_space_type {S}
    (space_type : MetaspaceType) (is_class : bool) : vm S (pointer what) :=
  if is_class then
    match space_type with
    | StandardMetaspaceType => ret (Ptr standard_class)
    | ReflectionMetaspaceType => ret (Ptr refl_class)
    | UnsafeAnonymousMetaspaceType => ret (Ptr anon_class)
    | BootMetaspaceType => ret (Ptr boot_non_class)
    | OtherMetaspaceType _ => ShouldNotReachHere ;;; ret NULL
    end
  else
    match space_type with
    | StandardMetaspaceType => ret (Ptr standard_non_class)
    | ReflectionMetaspaceType => ret (Ptr refl_non_class)
    | UnsafeAnonymousMetaspaceType => ret (Ptr anon_non_class)
    | BootMetaspaceType => ret (Ptr boot_non_class)
    | OtherMetaspaceType _ => ShouldNotReachHere ;;; ret NULL
    end.

(** What an arena does with its category: select, then ask for a level. *)
Definition next_level_for (space_type : MetaspaceType) (is_class : bool)
    (num_allocated : Z) : vm statics chklvl_t :=
  p <- alloc_sequence_by_space_type space_type is_class ;;
  virtual_get_next_chunk_level p num_allocated.

(* ------------------------------------------------------------------ *)
(** * SpaceManager *)

(** Objects of the classes whose definitions are elsewhere (Mutex,
    ChunkManager, Metachunk, BlockFreelist) are named by their address. *)
Definition address : Type := Z.

(** The members the constructor initialises, in the order of its
    initialiser list.  The word counters are [size_t]. *)
Record SpaceManager : Type := {
  _lock : pointer address;
  _chunk_manager : pointer address;
  _chunk_alloc_sequence : pointer what;
  _first_chunk : pointer address;
  _current_chunk : pointer address;
  _block_freelist : pointer address;
  _overhead_words : Z;
  _capacity_words : Z;
  _used_words : Z;
  _num_chunks_by_type : list Z
}.

(** [SpaceManager::SpaceManager].  The body is empty: the state of the VM
    is handed back as it came.  [num_chunk_types] is the extent of the
    array [_num_chunks_by_type], which spaceManager.hpp declares; the empty
    braces value-initialise every element. *)
Definition SpaceManager_ctor {St} (num_chunk_types : nat)
    (chunk_manager : pointer address) (alloc_sequence : pointer what)
    (lock : pointer address) : vm St SpaceManager :=
  ret {| _lock := lock;
         _chunk_manager := chunk_manager;
         _chunk_alloc_sequence := alloc_sequence;
         _first_chunk := NULL;
         _current_chunk := NULL;
         _block_freelist := NULL;
         _overhead_words := 0;
         _capacity_words := 0;
         _used_words := 0;
         _num_chunks_by_type := repeat 0 num_chunk_types |}.

(** The state an arena runs against: the static sequence objects, the
    block pool it was given, and the requests that pool has received. *)
Record world (Pool : Type) : Type := {
  sequences : statics;
  pool : Pool;
  pool_requests : list chklvl_t
}.
Arguments sequences {Pool} w.
Arguments pool {Pool} w.
Arguments pool_requests {Pool} w.

(** Code over the static objects, run inside a [world]. *)
Definition with_sequences {Pool A} (m : vm statics A) : vm (world Pool) A :=
  fun w => match m (sequences w) with
           | Ok (a, sigma) =>
               Ok (a, {| sequences := sigma; pool := pool w;
                         pool_requests := pool_requests w |})
           | Err e => Err e
           end.

(* ------------------------------------------------------------------ *)
(** * The arena allocator's operations *)

(** Modelled from the spec: spaceManager.cpp holds the constructor only;
    [allocate] and [deallocate] and the state they work on follow section
    4.2 of the design document, step by step.  What the document leaves to
    the platform or to the external collaborators is a variable of the
    section: the Block Pool and its [acquire_block], the allocation
    granularity, the fixed per-block overhead, the minimum useful size of a
    free-list leftover, and the bytes in a word. *)

(** A block as the arena sees it: where it starts, its level, and how many
    of its words are taken (header included). *)
Record Block : Type := {
  block_base : Z;
  block_level : chklvl_t;
  block_top : Z
}.

(** A span handed out and not yet given back: its address, the word count
    the caller asked for, and the words it occupies.  Not a member of the
    allocator; it is the record against which the contract of [deallocate]
    is read. *)
Record LiveSpan : Type := {
  live_address : Z;
  live_requested : Z;
  live_words : Z
}.

Record ArenaAllocator : Type := {
  alloc_sequence : pointer what;
  first_block : option Z;
  current_block : option Block;
  free_list : list (Z * Z);          (* address, words *)
  capacity_words : Z;
  used_words : Z;
  overhead_words : Z;
  num_blocks_by_level : list Z;
  live : list LiveSpan
}.

(** The arena a freshly constructed SpaceManager stands for: its chunk and
    free-list pointers are null, so it owns no block and no freed span. *)
Definition fresh_arena (sm : SpaceManager) : ArenaAllocator :=
  {| alloc_sequence := _chunk_alloc_sequence sm;
     first_block := None;
     current_block := None;
     free_list := [];
     capacity_words := _capacity_words sm;
     used_words := _used_words sm;
     overhead_words := _overhead_words sm;
     num_blocks_by_level := _num_chunks_by_type sm;
     live := [] |}.

Definition ArenaAllocator_new {St} (num_chunk_types : nat)
    (block_pool : pointer address) (sequence : pointer what)
    (lock : pointer address) : vm St ArenaAllocator :=
  sm <- SpaceManager_ctor num_chunk_types block_pool sequence lock ;;
  ret (fresh_arena sm).

Inductive alloc_outcome : Type :=
| Allocated (addr : Z)
| OutOfMemory.

Inductive arena_op : Type :=
| Allocate (word_count : Z)
| Deallocate (addr : Z) (word_count : Z).

(** Position of a level in the ladder, largest block first. *)
Definition level_index (lvl : chklvl_t) : nat :=
  match lvl with
  | CHUNK_LEVEL_4M => 0
  | CHUNK_LEVEL_2M => 1
  | CHUNK_LEVEL_1M => 2
  | CHUNK_LEVEL_512K => 3
  | CHUNK_LEVEL_256K => 4
  | CHUNK_LEVEL_128K => 5
  | CHUNK_LEVEL_64K => 6
  | CHUNK_LEVEL_32K => 7
  | CHUNK_LEVEL_16K => 8
  | CHUNK_LEVEL_8K => 9
  | CHUNK_LEVEL_4K => 10
  | CHUNK_LEVEL_2K => 11
  | CHUNK_LEVEL_1K => 12
  end%nat.

Fixpoint increment_at (i : nat) (counts : list Z) : list Z :=
  match counts, i with
  | [], _ => []
  | c :: rest, O => (c + 1) :: rest
  | c :: rest, S j => c :: increment_at j rest
  end.

Definition sum_words (l : list Z) : Z := fold_right Z.add 0 l.

(** Words held by the free list. *)
Definition free_words (fl : list (Z * Z)) : Z := sum_words (map snd fl).
Arguments free_words : simpl never.

(** First fit: the first freed span of at least [n] words, and the list
    without it. *)
Fixpoint take_first_fit (n : Z) (fl : list (Z * Z))
  : option ((Z * Z) * list (Z * Z)) :=
  match fl with
  | [] => None
  | (a, sz) :: rest =>
      if n <=? sz then Some ((a, sz), rest)
      else match take_first_fit n rest with
           | Some (hit, rest') => Some (hit, (a, sz) :: rest')
           | None => None
           end
  end.

(** Insertion of a freed span, joined to a span it is contiguous with. *)
Fixpoint free_list_insert (a n : Z) (fl : list (Z * Z)) : list (Z * Z) :=
  match fl with
  | [] => [(a, n)]
  | (b, m) :: rest =>
      if b + m =? a then (b, m + n) :: rest
      else if a + n =? b then (a, n + m) :: rest
      else (b, m) :: free_list_insert a n rest
  end.

(** The live span at [a] that was requested with [wc] words, and the live
    spans without it. *)
Fixpoint take_live (a wc : Z) (l : list LiveSpan)
  : option (LiveSpan * list LiveSpan) :=
  match l with
  | [] => None
  | s :: rest =>
      if (live_address s =? a) && (live_requested s =? wc)
      then Some (s, rest)
      else match take_live a wc rest with
           | Some (hit, rest') => Some (hit, s :: rest')
           | None => None
           end
  end.

(** Words held by the live spans. *)
Definition held_words (l : list LiveSpan) : Z :=
  sum_words (map live_words l).
Arguments held_words : simpl never.

Section ArenaOperations.

Context {Pool : Type}.
Variable acquire_block : chklvl_t -> Pool -> option (Z * Pool).
Variable granularity : Z.
Variable block_overhead : Z.
Variable min_useful_words : Z.
Variable BytesPerWord : Z.

Definition align_up (word_count : Z) : Z :=
  (word_count + granularity - 1) / granularity * granularity.

Definition level_words (lvl : chklvl_t) : Z :=
  chunk_byte_size lvl / BytesPerWord.

(** A level can hold a record when the record fits in what the block has
    left after its own header. *)
Definition can_hold (lvl : chklvl_t) (n : Z) : bool :=
  n + block_overhead <=? level_words lvl.

(** Step 5: the level the policy suggests, or else the smallest level of
    the ladder that can hold the record. *)
Definition choose_level (suggested : chklvl_t) (n : Z) : option chklvl_t :=
  if can_hold suggested n then Some suggested
  else find (fun lvl => can_hold lvl n) ladder.

Definition block_room (b : option Block) : Z :=
  match b with
  | None => 0
  | Some b => level_words (block_level b) - block_top b
  end.

Definition has_room (n : Z) (a : ArenaAllocator) : bool :=
  match current_block a with
  | None => false
  | Some _ => n <=? block_room (current_block a)
  end.

(** The call index fed to the sequence: the blocks granted so far. *)
Definition blocks_granted (a : ArenaAllocator) : Z :=
  sum_words (num_blocks_by_level a).

(** Step 3, on a hit [(addr, sz)]: the record takes the first [n] words of
    the span, a leftover of useful size goes back to the list. *)
Definition take_from_free_list (word_count n addr sz : Z)
    (rest : list (Z * Z)) (a : ArenaAllocator) : ArenaAllocator :=
  let leftover := sz - n in
  {| alloc_sequence := alloc_sequence a;
     first_block := first_block a;
     current_block := current_block a;
     free_list := if min_useful_words <=? leftover
                  then free_list_insert (addr + n) leftover rest
                  else rest;
     capacity_words := capacity_words a;
     used_words := used_words a + n;
     overhead_words := overhead_words a;
     num_blocks_by_level := num_blocks_by_level a;
     live := {| live_address := addr; live_requested := word_count;
                live_words := n |} :: live a |}.

(** Step 4: [n] words off the bump pointer of the current block. *)
Definition carve (word_count n : Z) (a : ArenaAllocator)
  : alloc_outcome * ArenaAllocator :=
  match current_block a with
  | None => (OutOfMemory, a)
  | Some b =>
      let addr := block_base b + block_top b in
      (Allocated addr,
       {| alloc_sequence := alloc_sequence a;
          first_block := first_block a;
          current_block := Some {| block_base := block_base b;
                                   block_level := block_level b;
                                   block_top := block_top b + n |};
          free_list := free_list a;
          capacity_words := capacity_words a;
          used_words := used_words a + n;
          overhead_words := overhead_words a;
          num_blocks_by_level := num_blocks_by_level a;
          live := {| live_address := addr; live_requested := word_count;
                     live_words := n |} :: live a |})
  end.

(** Step 6: the new block becomes the current one (and the first, if there
    was none), and the counters take it in. *)
Definition install_block (base : Z) (lvl : chklvl_t) (a : ArenaAllocator)
  : ArenaAllocator :=
  {| alloc_sequence := alloc_sequence a;
     first_block := match first_block a with
                    | None => Some base
                    | Some f => Some f
                    end;
     current_block := Some {| block_base := base; block_level := lvl;
                              block_top := block_overhead |};
     free_list := free_list a;
     capacity_words := capacity_words a + (level_words lvl - block_overhead);
     used_words := used_words a;
     overhead_words := overhead_words a + block_overhead;
     num_blocks_by_level := increment_at (level_index lvl)
                                         (num_blocks_by_level a);
     live := live a |}.

(** [acquire_block(level)] on the pool of the world, noted in its log. *)
Definition request_block (lvl : chklvl_t) : vm (world Pool) (option Z) :=
  fun w =>
    match acquire_block lvl (pool w) with
    | None =>
        Ok (None, {| sequences := sequences w; pool := pool w;
                     pool_requests := pool_requests w ++ [lvl] |})
    | Some (base, pool') =>
        Ok (Some base, {| sequences := sequences w; pool := pool';
                          pool_requests := pool_requests w ++ [lvl] |})
    end.

Definition allocate (word_count : Z) (a : ArenaAllocator)
  : vm (world Pool) (alloc_outcome * ArenaAllocator) :=
  if word_count <=? 0 then stop ContractMisuse
  else
    let n := align_up word_count in
    match take_first_fit n (free_list a) with
    | Some ((addr, sz), rest) =>
        ret (Allocated addr, take_from_free_list word_count n addr sz rest a)
    | None =>
        if has_room n a then ret (carve word_count n a)
        else
          suggested <- with_sequences
                         (virtual_get_next_chunk_level
                            (alloc_sequence a) (blocks_granted a)) ;;
          match choose_level suggested n with
          | None => ret (OutOfMemory, a)
          | Some lvl =>
              got <- request_block lvl ;;
              match got with
              | None => ret (OutOfMemory, a)
              | Some base =>
                  ret (carve word_count n (install_block base lvl a))
              end
          end
    end.

(** The freed span is the one [allocate] handed out at [addr] for
    [word_count]: the words it occupies (the rounded count) go to the free
    list and come off [used_words]. *)
Definition deallocate (addr word_count : Z) (a : ArenaAllocator)
  : vm (world Pool) ArenaAllocator :=
  match take_live addr word_count (live a) with
  | None => stop ContractMisuse
  | Some (span, live') =>
      ret {| alloc_sequence := alloc_sequence a;
             first_block := first_block a;
             current_block := current_block a;
             free_list := free_list_insert addr (live_words span)
                                           (free_list a);
             capacity_words := capacity_words a;
             used_words := used_words a - live_words span;
             overhead_words := overhead_words a;
             num_blocks_by_level := num_blocks_by_level a;
             live := live' |}
  end.

Definition arena_step (op : arena_op) (a : ArenaAllocator)
  : vm (world Pool) ArenaAllocator :=
  match op with
  | Allocate word_count =>
      r <- allocate word_count a ;; ret (snd r)
  | Deallocate addr word_count => deallocate addr word_count a
  end.

(** A lifetime: the operations of [ops], one after the other. *)
Fixpoint arena_run (ops : list arena_op) (a : ArenaAllocator)
  : vm (world Pool) ArenaAllocator :=
  match ops with
  | [] => ret a
  | op :: rest => a' <- arena_step op a ;; arena_run rest a'
  end.

(** What the counters must satisfy for [used_words <= capacity_words] to
    carry over from one operation to the next: [used_words] is what the
    live spans hold, and together with the free list and the room left in
    the current block it stays within [capacity_words]. *)
Definition arena_inv (a : ArenaAllocator) : Prop :=
  Forall (fun s => 0 <= live_words s) (live a) /\
  Forall (fun span => 0 <= snd span) (free_list a) /\
  0 <= block_room (current_block a) /\
  used_words a + free_words (free_list a) + block_room (current_block a)
    <= capacity_words a /\
  held_words (live a) = used_words a.

End ArenaOperations.

(** A block pool for running the operations on concrete requests: a range
    of addresses [next, limit) handed out front to back, eight bytes to the
    word; a request that does not fit in what is left fails. *)
Record BumpPool : Type := {
  bump_next : Z;
  bump_limit : Z
}.

Definition bump_acquire (lvl : chklvl_t) (p : BumpPool)
  : option (Z * BumpPool) :=
  let size := chunk_byte_size lvl / 8 in
  if bump_next p + size <=? bump_limit p
  then Some (bump_next p,
             {| bump_next := bump_next p + size;
                bump_limit := bump_limit p |})
  else None.

(* ------------------------------------------------------------------ *)
(** * Properties of the constant sequences *)

Lemma geb_true_iff (a b : Z) : (a >=? b) = true <-> b <= a.
Proof. rewrite Z.geb_leb. apply Z.leb_le. Qed.

Lemma geb_false_iff (a b : Z) : (a >=? b) = false <-> a < b.
Proof. rewrite Z.geb_leb. apply Z.leb_gt. Qed.

Lemma array_read_in_bounds {A} (a : list A) (i : Z) :
  0 <= i < Z.of_nat (List.length a) -> exists x, array_read a i = Ok x.
Proof.
  intros [Hlo Hhi]. unfold array_read.
  destruct (i <? 0) eqn:Hneg.
  - apply Z.ltb_lt in Hneg. lia.
  - destruct (nth_error a (Z.to_nat i)) as [x|] eqn:Hnth.
    + now exists x.
    + apply nth_error_None in Hnth. lia.
Qed.

Lemma array_read_last {A} (a : list A) (d x : A) :
  array_read a (Z.of_nat (List.length a) - 1) = Ok x -> last a d = x.
Proof.
  induction a as [|y a IH]; intros H.
  - discriminate H.
  - destruct a as [|z a'].
    + cbn in H. now injection H.
    + change (last (y :: z :: a') d) with (last (z :: a') d).
      apply IH. clear IH. unfold array_read in *.
      replace (Z.of_nat (List.length (y :: z :: a')) - 1)
        with (Z.of_nat (S (List.length (z :: a') - 1))) in H
        by (cbn [List.length]; lia).
      replace (Z.of_nat (List.length (z :: a')) - 1)
        with (Z.of_nat (List.length (z :: a') - 1))
        by (cbn [List.length]; lia).
      destruct (Z.of_nat (S (List.length (z :: a') - 1)) <? 0) eqn:E1;
        [apply Z.ltb_lt in E1; lia|].
      destruct (Z.of_nat (List.length (z :: a') - 1) <? 0) eqn:E2;
        [apply Z.ltb_lt in E2; lia|].
      rewrite Nat2Z.id in *. exact H.
Qed.

Lemma ctor_ok (array : list chklvl_t) (n : Z) (this : ConstantChunkAllocSequence) :
  ConstantChunkAllocSequence_ctor array n = Ok this ->
  0 < n /\ _entries this = array /\ _num_entries this = n.
Proof.
  unfold ConstantChunkAllocSequence_ctor, assert, result_bind. cbn.
  destruct (0 <? n) eqn:Hn; intros H; [|discriminate H].
  apply Z.ltb_lt in Hn. injection H as <-. now cbn.
Qed.

Lemma get_next_chunk_level_reads_entry_index
    (this : ConstantChunkAllocSequence) (i : Z) :
  get_next_chunk_level this i = array_read (_entries this) (entry_index this i).
Proof.
  unfold get_next_chunk_level, entry_index.
  now destruct (i >=? _num_entries this).
Qed.

Lemma entry_index_min (this : ConstantChunkAllocSequence) (i : Z) :
  entry_index this i = Z.min i (_num_entries this - 1).
Proof.
  unfold entry_index. destruct (i >=? _num_entries this) eqn:H.
  - apply geb_true_iff in H. lia.
  - apply geb_false_iff in H. lia.
Qed.

(** C1: for a constant sequence built over a non-empty table T, the call
    with a non-negative index i returns T[min(i, len(T)-1)]; from
    i >= len(T) on this is the last entry of the table. *)
Theorem constant_sequence_min_index (T : list chklvl_t) (i : Z) :
  T <> [] -> 0 <= i ->
  exists this lvl,
    ConstantChunkAllocSequence_ctor T (Z.of_nat (List.length T)) = Ok this /\
    array_read T (Z.min i (Z.of_nat (List.length T) - 1)) = Ok lvl /\
    get_next_chunk_level this i = Ok lvl /\
    (Z.of_nat (List.length T) <= i -> forall d, last T d = lvl).
Proof.
  intros Hne Hi.
  assert (Hlen : 0 < Z.of_nat (List.length T))
    by (destruct T; [congruence | cbn [List.length]; lia]).
  set (n := Z.of_nat (List.length T)) in *.
  exists {| _entries := T; _num_entries := n |}.
  destruct (array_read_in_bounds T (Z.min i (n - 1))) as [lvl Hlvl];
    [subst n; lia|].
  exists lvl. repeat split.
  - unfold ConstantChunkAllocSequence_ctor, assert, result_bind. cbn.
    now apply Z.ltb_lt in Hlen as ->.
  - exact Hlvl.
  - rewrite get_next_chunk_level_reads_entry_index, entry_index_min.
    exact Hlvl.
  - intros Hge d. apply array_read_last.
    rewrite Z.min_r in Hlvl by lia. exact Hlvl.
Qed.

Lemma constant_sequence_min_index_witness :
  exists this lvl,
    ConstantChunkAllocSequence_ctor g_sequ_boot_non_class 2 = Ok this /\
    array_read g_sequ_boot_non_class (Z.min 5 (2 - 1)) = Ok lvl /\
    get_next_chunk_level this 5 = Ok lvl /\
    (2 <= 5 -> forall d, last g_sequ_boot_non_class d = lvl).
Proof.
  apply (constant_sequence_min_index g_sequ_boot_non_class 5).
  - discriminate.
  - lia.
Defined.

(** C6: when the constructor's assertion held (num_entries > 0), a call
    with a non-negative index subscripts the entries with i if
    i < num_entries and with num_entries - 1 otherwise, an index within
    [0, num_entries); on an array of that many entries the read is in
    bounds and the call returns a level. *)
Theorem entry_index_in_bounds
    (array : list chklvl_t) (n : Z) (this : ConstantChunkAllocSequence)
    (i : Z) :
  ConstantChunkAllocSequence_ctor array n = Ok this -> 0 <= i ->
  0 <= entry_index this i < n /\
  entry_index this i = (if i <? n then i else n - 1) /\
  get_next_chunk_level this i = array_read array (entry_index this i) /\
  (n <= Z.of_nat (List.length array) ->
   exists lvl, get_next_chunk_level this i = Ok lvl).
Proof.
  intros Hctor Hi. apply ctor_ok in Hctor as (Hn & He & Hnum).
  assert (Hidx : entry_index this i = (if i <? n then i else n - 1)).
  { unfold entry_index. rewrite Hnum.
    destruct (i >=? n) eqn:H, (i <? n) eqn:H'; try reflexivity.
    - apply geb_true_iff in H. apply Z.ltb_lt in H'. lia.
    - apply geb_false_iff in H. apply Z.ltb_ge in H'. lia. }
  assert (Hrange : 0 <= entry_index this i < n).
  { rewrite Hidx. destruct (i <? n) eqn:H.
    - apply Z.ltb_lt in H. lia.
    - lia. }
  split; [exact Hrange|]. split; [exact Hidx|]. split.
  - rewrite get_next_chunk_level_reads_entry_index. now rewrite He.
  - intros Hlen. rewrite get_next_chunk_level_reads_entry_index, He.
    apply array_read_in_bounds. lia.
Qed.

Lemma entry_index_in_bounds_witness :
  let this := {| _entries := g_sequ_refl_non_class; _num_entries := 2 |} in
  0 <= entry_index this 7 < 2 /\
  entry_index this 7 = (if 7 <? 2 then 7 else 2 - 1) /\
  get_next_chunk_level this 7
    = array_read g_sequ_refl_non_class (entry_index this 7) /\
  (2 <= Z.of_nat (List.length g_sequ_refl_non_class) ->
   exists lvl, get_next_chunk_level this 7 = Ok lvl).
Proof.
  apply (entry_index_in_bounds g_sequ_refl_non_class 2).
  - reflexivity.
  - lia.
Defined.

Lemma load_num_entries_at (sigma : statics) (w : what)
    (this : ConstantChunkAllocSequence) :
  static_object sigma w = Some this ->
  load_num_entries (Ptr w) sigma = Ok (_num_entries this, sigma).
Proof. intros H. unfold load_num_entries. now rewrite H. Qed.

Lemma load_entry_at (sigma : statics) (w : what)
    (this : ConstantChunkAllocSequence) (k : Z) :
  static_object sigma w = Some this ->
  load_entry (Ptr w) k sigma
  = lift_result (array_read (_entries this) k) sigma.
Proof. intros H. unfold load_entry. now rewrite H. Qed.

Lemma body_at (sigma : statics) (w : what)
    (this : ConstantChunkAllocSequence) (i : Z) :
  static_object sigma w = Some this ->
  get_next_chunk_level_body (Ptr w) i sigma
  = lift_result
      (array_read (_entries this) (Z.min i (_num_entries this - 1))) sigma.
Proof.
  intros H. unfold get_next_chunk_level_body, bind.
  rewrite (load_num_entries_at sigma w this H).
  destruct (i >=? _num_entries this) eqn:Hge.
  - rewrite (load_num_entries_at sigma w this H),
      (load_entry_at sigma w this _ H).
    apply geb_true_iff in Hge. now rewrite Z.min_r by lia.
  - rewrite (load_entry_at sigma w this _ H).
    apply geb_false_iff in Hge. now rewrite Z.min_l by lia.
Qed.

Lemma body_keeps_store (sigma sigma' : statics) (this : pointer what)
    (i : Z) (lvl : chklvl_t) :
  get_next_chunk_level_body this i sigma = Ok (lvl, sigma') ->
  sigma' = sigma.
Proof.
  destruct this as [|w].
  - discriminate.
  - destruct (static_object sigma w) as [obj|] eqn:Hobj.
    + rewrite (body_at sigma w obj i Hobj). unfold lift_result.
      destruct (array_read _ _); [|discriminate].
      intros H. now injection H.
    + unfold get_next_chunk_level_body, bind, load_num_entries.
      rewrite Hobj. discriminate.
Qed.

(** C7: get_next_chunk_level is a function of the table and the call
    index.  Run on the store with every member access a load, the body
    returns entry min(num_allocated, _num_entries - 1) of the table of the
    object it is called on, a value fixed by that table, its count and the
    index alone, and hands the store back as it was.  So a call mutates
    nothing, in the store or in the world of an arena that makes it; two
    calls in a row with the same num_allocated return the same level; two
    objects with equal tables return the same, whatever else the state
    holds; and a call through a ChunkAllocSequence pointer is a run of
    this body. *)
Theorem get_next_chunk_level_pure :
  (forall (sigma : statics) (w : what)
          (this : ConstantChunkAllocSequence) (i : Z),
      static_object sigma w = Some this ->
      get_next_chunk_level_body (Ptr w) i sigma
      = lift_result
          (array_read (_entries this) (Z.min i (_num_entries this - 1)))
          sigma) /\
  (forall (sigma sigma' : statics) (this : pointer what) (i : Z)
          (lvl : chklvl_t),
      get_next_chunk_level_body this i sigma = Ok (lvl, sigma') ->
      sigma' = sigma) /\
  (forall (Pool : Type) (w w' : world Pool) (this : pointer what) (i : Z)
          (lvl : chklvl_t),
      with_sequences (get_next_chunk_level_body this i) w = Ok (lvl, w') ->
      w' = w) /\
  (forall (sigma : statics) (this : pointer what) (i : Z),
      (a <- get_next_chunk_level_body this i ;;
       b <- get_next_chunk_level_body this i ;;
       ret (a, b)) sigma
      = (a <- get_next_chunk_level_body this i ;; ret (a, a)) sigma) /\
  (forall (sigma1 sigma2 : statics) (w1 w2 : what)
          (s1 s2 : ConstantChunkAllocSequence) (i : Z),
      static_object sigma1 w1 = Some s1 ->
      static_object sigma2 w2 = Some s2 ->
      _entries s1 = _entries s2 ->
      _num_entries s1 = _num_entries s2 ->
      returned (get_next_chunk_level_body (Ptr w1) i sigma1)
      = returned (get_next_chunk_level_body (Ptr w2) i sigma2)) /\
  (forall (sigma : statics) (this : pointer what) (i : Z),
      virtual_get_next_chunk_level this i sigma
      = get_next_chunk_level_body this i sigma).
Proof.
  split; [exact body_at|].
  split; [exact body_keeps_store|].
  split; [|split; [|split]].
  - intros Pool w w' this i lvl. unfold with_sequences.
    destruct (get_next_chunk_level_body this i (sequences w))
      as [[a sigma']|e] eqn:E; [|discriminate].
    apply body_keeps_store in E. subst sigma'.
    intros H. injection H as _ <-. now destruct w.
  - intros sigma this i. unfold bind.
    destruct (get_next_chunk_level_body this i sigma) as [[a sigma']|e] eqn:E;
      [|reflexivity].
    pose proof (body_keeps_store _ _ _ _ _ E) as ->. now rewrite E.
  - intros sigma1 sigma2 w1 w2 s1 s2 i H1 H2 He Hn.
    rewrite (body_at sigma1 w1 s1 i H1), (body_at sigma2 w2 s2 i H2).
    rewrite He, Hn. unfold lift_result, returned.
    now destruct (array_read _ _).
  - intros sigma [|w] i; [reflexivity|].
    destruct (static_object sigma w) as [obj|] eqn:Hobj.
    + rewrite (body_at sigma w obj i Hobj).
      unfold virtual_get_next_chunk_level. rewrite Hobj.
      now rewrite get_next_chunk_level_reads_entry_index, entry_index_min.
    + unfold virtual_get_next_chunk_level, get_next_chunk_level_body, bind,
        load_num_entries.
      now rewrite Hobj.
Qed.

Lemma get_next_chunk_level_pure_witness :
  get_next_chunk_level_body (Ptr boot_non_class) 5 g_chunk_alloc_sequence
  = lift_result
      (array_read [CHUNK_LEVEL_4M; CHUNK_LEVEL_1M] (Z.min 5 (2 - 1)))
      g_chunk_alloc_sequence /\
  returned (get_next_chunk_level_body (Ptr anon_class) 3
              g_chunk_alloc_sequence)
  = returned (get_next_chunk_level_body (Ptr refl_class) 3
                [(refl_class,
                  {| _entries := [CHUNK_LEVEL_1K]; _num_entries := 1 |})]).
Proof.
  destruct get_next_chunk_level_pure as (Hbody & _ & _ & _ & Htable & _).
  split.
  - apply (Hbody g_chunk_alloc_sequence boot_non_class
                 {| _entries := [CHUNK_LEVEL_4M; CHUNK_LEVEL_1M];
                    _num_entries := 2 |} 5).
    reflexivity.
  - eapply Htable; reflexivity.
Defined.

(* ------------------------------------------------------------------ *)
(** * Properties of the selector *)

Lemma static_initialization_runs :
  static_initialization [] = Ok (tt, g_chunk_alloc_sequence).
Proof. reflexivity. Qed.

Lemma largest_level (lvl : chklvl_t) :
  chunk_byte_size lvl <= chunk_byte_size CHUNK_LEVEL_4M.
Proof. destruct lvl; vm_compute; discriminate. Qed.

Lemma smallest_level (lvl : chklvl_t) :
  chunk_byte_size CHUNK_LEVEL_1K <= chunk_byte_size lvl.
Proof. destruct lvl; vm_compute; discriminate. Qed.

(** C2: what the code does for the bootstrap category with the class kind.
    The selector hands out the non-class object, so the levels are 4M at
    call index 0 and 1M from index 1 on; the levels 1M, 256K, 256K are
    those of the object defined for it, g_chunk_alloc_sequence_boot_class,
    which the selector never returns. *)
Theorem boot_class_lookup_runs_non_class_table :
  let g := g_chunk_alloc_sequence in
  (next_level_for BootMetaspaceType true 0 g = Ok (CHUNK_LEVEL_4M, g) /\
   next_level_for BootMetaspaceType true 1 g = Ok (CHUNK_LEVEL_1M, g) /\
   next_level_for BootMetaspaceType true 2 g = Ok (CHUNK_LEVEL_1M, g)) /\
  (next_level_for BootMetaspaceType true 0 g <> Ok (CHUNK_LEVEL_1M, g) /\
   next_level_for BootMetaspaceType true 1 g <> Ok (CHUNK_LEVEL_256K, g)) /\
  (virtual_get_next_chunk_level (Ptr boot_class) 0 g
     = Ok (CHUNK_LEVEL_1M, g) /\
   virtual_get_next_chunk_level (Ptr boot_class) 1 g
     = Ok (CHUNK_LEVEL_256K, g) /\
   virtual_get_next_chunk_level (Ptr boot_class) 2 g
     = Ok (CHUNK_LEVEL_256K, g)).
Proof.
  cbv zeta. repeat split; try reflexivity; vm_compute; discriminate.
Qed.

(** C3: for BootMetaspaceType the selector returns the same object,
    g_chunk_alloc_sequence_boot_non_class, whether is_class is true or
    false. *)
Theorem boot_lookup_same_object (St : Type) (s : St) :
  alloc_sequence_by_space_type BootMetaspaceType true s
    = Ok (Ptr boot_non_class, s) /\
  alloc_sequence_by_space_type BootMetaspaceType false s
    = Ok (Ptr boot_non_class, s) /\
  alloc_sequence_by_space_type BootMetaspaceType true s
    = alloc_sequence_by_space_type BootMetaspaceType false s.
Proof. repeat split. Qed.

(** C4: for a bootstrap non-class arena, call index 0 returns 4M, the
    first entry of the sequence and the largest level of the ladder; call
    index 1 returns the second entry, 1M; call index 2 returns 1M again. *)
Theorem boot_non_class_schedule :
  let g := g_chunk_alloc_sequence in
  next_level_for BootMetaspaceType false 0 g = Ok (CHUNK_LEVEL_4M, g) /\
  nth_error g_sequ_boot_non_class 0 = Some CHUNK_LEVEL_4M /\
  (forall lvl, chunk_byte_size lvl <= chunk_byte_size CHUNK_LEVEL_4M) /\
  next_level_for BootMetaspaceType false 1 g = Ok (CHUNK_LEVEL_1M, g) /\
  nth_error g_sequ_boot_non_class 1 = Some CHUNK_LEVEL_1M /\
  next_level_for BootMetaspaceType false 2 g = Ok (CHUNK_LEVEL_1M, g).
Proof.
  cbv zeta. repeat split; try reflexivity. apply largest_level.
Qed.

(** C5: for a space type outside Standard, Reflection, UnsafeAnonymous and
    Boot the selector stops in ShouldNotReachHere; it returns no
    sequence. *)
Theorem unrecognized_space_type_is_fatal
    (St : Type) (space_type : MetaspaceType) (is_class : bool) (s : St) :
  recognized space_type = false ->
  alloc_sequence_by_space_type space_type is_class s
    = Err ShouldNotReachHereHit /\
  forall p s', alloc_sequence_by_space_type space_type is_class s
               <> Ok (p, s').
Proof.
  intros Hrec. destruct space_type; try discriminate Hrec.
  destruct is_class; split; try reflexivity; intros p s' H; discriminate H.
Qed.

Lemma unrecognized_space_type_is_fatal_witness :
  alloc_sequence_by_space_type (OtherMetaspaceType 4) true tt
    = Err ShouldNotReachHereHit /\
  forall p s', alloc_sequence_by_space_type (OtherMetaspaceType 4) true tt
               <> Ok (p, s').
Proof.
  apply (unrecognized_space_type_is_fatal unit (OtherMetaspaceType 4) true tt).
  reflexivity.
Defined.

(** C8: for UnsafeAnonymousMetaspaceType, class or not, the selected
    sequence returns 1K, the smallest level of the ladder, at every
    non-negative call index. *)
Theorem anon_sequences_constant_1K (is_class : bool) (i : Z) :
  0 <= i ->
  next_level_for UnsafeAnonymousMetaspaceType is_class i
                 g_chunk_alloc_sequence
    = Ok (CHUNK_LEVEL_1K, g_chunk_alloc_sequence) /\
  forall lvl, chunk_byte_size CHUNK_LEVEL_1K <= chunk_byte_size lvl.
Proof.
  intros Hi. split; [|apply smallest_level].
  assert (Hread : forall this, _entries this = [CHUNK_LEVEL_1K] ->
                               _num_entries this = 1 ->
                               get_next_chunk_level this i = Ok CHUNK_LEVEL_1K).
  { intros this He Hn. unfold get_next_chunk_level. rewrite He, Hn.
    destruct (i >=? 1) eqn:H; [reflexivity|].
    apply geb_false_iff in H. now replace i with 0 by lia. }
  destruct is_class; unfold next_level_for, bind; cbn;
    unfold lift_result; now rewrite Hread.
Qed.

Lemma anon_sequences_constant_1K_witness :
  next_level_for UnsafeAnonymousMetaspaceType true 1000
                 g_chunk_alloc_sequence
    = Ok (CHUNK_LEVEL_1K, g_chunk_alloc_sequence) /\
  forall lvl, chunk_byte_size CHUNK_LEVEL_1K <= chunk_byte_size lvl.
Proof. apply (anon_sequences_constant_1K true 1000). lia. Defined.

(* ------------------------------------------------------------------ *)
(** * Properties of the SpaceManager *)

(** C9: right after construction the chunk pointers and the block
    free-list are null, the three word counters are zero, every chunk count
    is zero, and the stored chunk manager, sequence and lock are the
    arguments; the state of the VM, the block pool and the log of its
    requests included, is as it was before: no block was asked for. *)
Theorem SpaceManager_ctor_fresh
    (Pool : Type) (w : world Pool) (num_chunk_types : nat)
    (chunk_manager : pointer address) (sequence : pointer what)
    (lock : pointer address) :
  exists sm w',
    SpaceManager_ctor num_chunk_types chunk_manager sequence lock w
      = Ok (sm, w') /\
    (w' = w /\ pool w' = pool w /\ pool_requests w' = pool_requests w) /\
    (_first_chunk sm = NULL /\ _current_chunk sm = NULL /\
     _block_freelist sm = NULL) /\
    (_capacity_words sm = 0 /\ _used_words sm = 0 /\
     _overhead_words sm = 0) /\
    (List.length (_num_chunks_by_type sm) = num_chunk_types /\
     forall k c, nth_error (_num_chunks_by_type sm) k = Some c -> c = 0) /\
    (_chunk_manager sm = chunk_manager /\
     _chunk_alloc_sequence sm = sequence /\ _lock sm = lock).
Proof.
  eexists. exists w. split; [reflexivity|]. cbn.
  repeat split; try reflexivity.
  - apply repeat_length.
  - intros k c Hk. apply nth_error_In in Hk.
    now apply repeat_spec in Hk.
Qed.

(* ------------------------------------------------------------------ *)
(** * The capacity invariant of the arena *)

Lemma free_words_cons (b m : Z) (fl : list (Z * Z)) :
  free_words ((b, m) :: fl) = m + free_words fl.
Proof. reflexivity. Qed.

Lemma held_words_cons (s : LiveSpan) (l : list LiveSpan) :
  held_words (s :: l) = live_words s + held_words l.
Proof. reflexivity. Qed.

Lemma take_first_fit_words (n : Z) (fl : list (Z * Z))
    (a sz : Z) (rest : list (Z * Z)) :
  take_first_fit n fl = Some ((a, sz), rest) ->
  n <= sz /\ free_words fl = sz + free_words rest.
Proof.
  revert rest. induction fl as [|[b m] fl IH]; intros rest H; cbn in H.
  - discriminate H.
  - destruct (n <=? m) eqn:Hfit.
    + injection H as -> -> <-. apply Z.leb_le in Hfit.
      split; [exact Hfit|reflexivity].
    + destruct (take_first_fit n fl) as [[hit rest']|]; [|discriminate H].
      injection H as -> <-.
      destruct (IH rest' eq_refl) as [Hle Hsum]. split; [exact Hle|].
      rewrite !free_words_cons. lia.
Qed.

Lemma take_first_fit_nonneg (n : Z) (fl : list (Z * Z))
    (hit : Z * Z) (rest : list (Z * Z)) :
  take_first_fit n fl = Some (hit, rest) ->
  Forall (fun span => 0 <= snd span) fl ->
  Forall (fun span => 0 <= snd span) rest.
Proof.
  revert rest. induction fl as [|[b m] fl IH]; intros rest H Hall; cbn in H.
  - discriminate H.
  - inversion Hall as [|? ? Hm Hfl]; subst.
    destruct (n <=? m).
    + injection H as _ <-. exact Hfl.
    + destruct (take_first_fit n fl) as [[hit' rest']|]; [|discriminate H].
      injection H as -> <-. constructor; [exact Hm|].
      apply IH; [reflexivity|exact Hfl].
Qed.

Lemma free_list_insert_words (a n : Z) (fl : list (Z * Z)) :
  free_words (free_list_insert a n fl) = n + free_words fl.
Proof.
  induction fl as [|[b m] fl IH]; cbn [free_list_insert].
  - rewrite free_words_cons. lia.
  - destruct (b + m =? a); [rewrite !free_words_cons; lia|].
    destruct (a + n =? b); [rewrite !free_words_cons; lia|].
    rewrite !free_words_cons. lia.
Qed.

Lemma free_list_insert_nonneg (a n : Z) (fl : list (Z * Z)) :
  0 <= n ->
  Forall (fun span => 0 <= snd span) fl ->
  Forall (fun span => 0 <= snd span) (free_list_insert a n fl).
Proof.
  intros Hn. induction fl as [|[b m] fl IH]; intros Hall; cbn.
  - constructor; [exact Hn|constructor].
  - inversion Hall as [|? ? Hm Hfl]; subst. cbn in Hm.
    destruct (b + m =? a); [constructor; [cbn; lia|exact Hfl]|].
    destruct (a + n =? b); [constructor; [cbn; lia|exact Hfl]|].
    constructor; [exact Hm|now apply IH].
Qed.

(** A span just put on the free list, or one before it, fits a request
    of its size. *)
Lemma take_first_fit_after_insert (a n : Z) (fl : list (Z * Z)) :
  Forall (fun span => 0 <= snd span) fl ->
  exists hit rest,
    take_first_fit n (free_list_insert a n fl) = Some (hit, rest).
Proof.
  induction fl as [|[b m] fl IH]; intros Hall; cbn [free_list_insert].
  - cbn. rewrite Z.leb_refl. now eexists; eexists.
  - inversion Hall as [|? ? Hm Hfl]; subst. cbn in Hm.
    destruct (b + m =? a).
    { cbn. replace (n <=? m + n) with true
        by (symmetry; apply Z.leb_le; lia).
      now eexists; eexists. }
    destruct (a + n =? b).
    { cbn. replace (n <=? n + m) with true
        by (symmetry; apply Z.leb_le; lia).
      now eexists; eexists. }
    cbn. destruct (n <=? m); [now eexists; eexists|].
    destruct (IH Hfl) as (hit & rest & ->). now eexists; eexists.
Qed.

Lemma take_live_hit (a wc : Z) (l : list LiveSpan)
    (hit : LiveSpan) (rest : list LiveSpan) :
  take_live a wc l = Some (hit, rest) ->
  held_words l = live_words hit + held_words rest /\
  (Forall (fun s => 0 <= live_words s) l ->
   0 <= live_words hit /\ Forall (fun s => 0 <= live_words s) rest).
Proof.
  revert rest. induction l as [|s l IH]; intros rest H; cbn in H.
  - discriminate H.
  - destruct ((live_address s =? a) && (live_requested s =? wc)).
    + injection H as <- <-. split; [apply held_words_cons|].
      intros Hall. now inversion Hall.
    + destruct (take_live a wc l) as [[hit' rest']|]; [|discriminate H].
      injection H as -> <-. destruct (IH rest' eq_refl) as [Hsum Hforall].
      split; [rewrite !held_words_cons; lia|].
      intros Hall. inversion Hall as [|? ? Hs Hl]; subst.
      destruct (Hforall Hl) as [Hhit Hrest].
      split; [exact Hhit|now constructor].
Qed.

Lemma free_words_nonneg (fl : list (Z * Z)) :
  Forall (fun span => 0 <= snd span) fl -> 0 <= free_words fl.
Proof.
  induction fl as [|[b m] fl IH]; intros Hall.
  - unfold free_words. cbn. lia.
  - inversion Hall as [|? ? Hm Hfl]; subst. cbn in Hm.
    rewrite free_words_cons. specialize (IH Hfl). lia.
Qed.

Lemma held_words_nonneg (l : list LiveSpan) :
  Forall (fun s => 0 <= live_words s) l -> 0 <= held_words l.
Proof.
  induction l as [|s l IH]; intros Hall.
  - unfold held_words. cbn. lia.
  - inversion Hall as [|? ? Hs Hl]; subst.
    rewrite held_words_cons. specialize (IH Hl). lia.
Qed.

Section ArenaInvariant.

Context {Pool : Type}.
Variable acquire_block : chklvl_t -> Pool -> option (Z * Pool).
Variable granularity : Z.
Variable block_overhead : Z.
Variable min_useful_words : Z.
Variable BytesPerWord : Z.

Local Abbreviation inv := (arena_inv BytesPerWord).
Local Abbreviation room := (block_room BytesPerWord).
Local Abbreviation words := (level_words BytesPerWord).
Local Abbreviation alloc :=
  (allocate acquire_block granularity block_overhead min_useful_words
            BytesPerWord).
Local Abbreviation run :=
  (arena_run acquire_block granularity block_overhead min_useful_words
             BytesPerWord).

Lemma align_up_ge (wc : Z) : 0 < granularity -> wc <= align_up granularity wc.
Proof.
  intros Hg. unfold align_up.
  pose proof (Z.div_mod (wc + granularity - 1) granularity) as Hdm.
  pose proof (Z.mod_pos_bound (wc + granularity - 1) granularity Hg) as Hr.
  lia.
Qed.

Lemma choose_level_can_hold (suggested lvl : chklvl_t) (n : Z) :
  choose_level block_overhead BytesPerWord suggested n = Some lvl ->
  n + block_overhead <= words lvl.
Proof.
  unfold choose_level.
  destruct (can_hold block_overhead BytesPerWord suggested n) eqn:Hs.
  - intros H. injection H as <-. now apply Z.leb_le in Hs.
  - intros H. apply find_some in H as [_ H]. now apply Z.leb_le in H.
Qed.

Lemma fresh_arena_inv (num_chunk_types : nat)
    (block_pool : pointer address) (sequence : pointer what)
    (lock : pointer address) (w w' : world Pool) (a : ArenaAllocator) :
  ArenaAllocator_new num_chunk_types block_pool sequence lock w = Ok (a, w') ->
  inv a.
Proof.
  intros H. injection H as <- _. unfold arena_inv. cbn.
  repeat split; try constructor; unfold free_words; cbn; lia.
Qed.

Lemma take_from_free_list_inv (wc n addr sz : Z) (rest : list (Z * Z))
    (a : ArenaAllocator) :
  0 <= n ->
  take_first_fit n (free_list a) = Some ((addr, sz), rest) ->
  inv a ->
  inv (take_from_free_list min_useful_words wc n addr sz rest a).
Proof.
  intros Hn Hfit (Hlive & Hfree & Hroom & Hcap & Hheld).
  destruct (take_first_fit_words _ _ _ _ _ Hfit) as [Hle Hsum].
  pose proof (take_first_fit_nonneg _ _ _ _ Hfit Hfree) as Hrest.
  unfold arena_inv, take_from_free_list. cbn.
  rewrite held_words_cons. cbn.
  split; [constructor; [exact Hn|exact Hlive]|].
  destruct (min_useful_words <=? sz - n).
  - split; [apply free_list_insert_nonneg; [lia|exact Hrest]|].
    split; [exact Hroom|]. rewrite free_list_insert_words. lia.
  - split; [exact Hrest|]. split; [exact Hroom|]. lia.
Qed.

Lemma carve_inv (wc n : Z) (a : ArenaAllocator) :
  0 <= n ->
  n <= room (current_block a) ->
  inv a ->
  inv (snd (carve wc n a)).
Proof.
  intros Hn Hfits (Hlive & Hfree & Hroom & Hcap & Hheld).
  unfold carve. destruct (current_block a) as [b|] eqn:Hb.
  - unfold arena_inv. cbn in *. rewrite held_words_cons. cbn.
    split; [constructor; [exact Hn|exact Hlive]|].
    split; [exact Hfree|]. repeat split; lia.
  - cbn. unfold arena_inv. rewrite Hb. now repeat split.
Qed.

Lemma install_block_inv (base : Z) (lvl : chklvl_t) (n : Z)
    (a : ArenaAllocator) :
  0 <= n ->
  n + block_overhead <= words lvl ->
  inv a ->
  inv (install_block block_overhead BytesPerWord base lvl a) /\
  n <= room (current_block
               (install_block block_overhead BytesPerWord base lvl a)).
Proof.
  intros Hn Hfits (Hlive & Hfree & Hroom & Hcap & Hheld).
  unfold arena_inv, install_block. cbn.
  repeat split; try assumption; lia.
Qed.

Lemma allocate_inv (wc : Z) (a a' : ArenaAllocator)
    (r : alloc_outcome) (w w' : world Pool) :
  0 < granularity ->
  alloc wc a w = Ok ((r, a'), w') ->
  inv a -> inv a'.
Proof.
  intros Hg. unfold allocate. destruct (wc <=? 0) eqn:Hwc; [discriminate|].
  apply Z.leb_gt in Hwc. pose proof (align_up_ge wc Hg) as Hn.
  set (n := align_up granularity wc) in *.
  destruct (take_first_fit n (free_list a)) as [[[addr sz] rest]|] eqn:Hfit.
  - intros H Hinv. injection H as _ <- _.
    apply take_from_free_list_inv; [lia|exact Hfit|exact Hinv].
  - destruct (has_room BytesPerWord n a) eqn:Hroom.
    + intros H Hinv. unfold ret in H.
      replace a' with (snd (carve wc n a))
        by (destruct (carve wc n a); now injection H).
      apply carve_inv; [lia| |exact Hinv].
      unfold has_room in Hroom.
      destruct (current_block a); [now apply Z.leb_le in Hroom|discriminate].
    + unfold bind.
      destruct (with_sequences _ w) as [[suggested w1]|e]; [|discriminate].
      destruct (choose_level block_overhead BytesPerWord suggested n)
        as [lvl|] eqn:Hlvl.
      * apply choose_level_can_hold in Hlvl.
        destruct (request_block acquire_block lvl w1) as [[[base|] w2]|e];
          [| |discriminate].
        -- intros H Hinv. unfold ret in H.
           set (a1 := install_block block_overhead BytesPerWord base lvl a)
             in *.
           replace a' with (snd (carve wc n a1))
             by (destruct (carve wc n a1); now injection H).
           assert (Hn0 : 0 <= n) by lia.
           destruct (install_block_inv base lvl n a Hn0 Hlvl Hinv)
             as [Hinv1 Hfits].
           now apply carve_inv.
        -- intros H Hinv. now injection H as _ <- _.
      * intros H Hinv. now injection H as _ <- _.
Qed.

Lemma deallocate_inv (addr wc : Z) (a a' : ArenaAllocator)
    (w w' : world Pool) :
  deallocate addr wc a w = Ok (a', w') -> inv a -> inv a'.
Proof.
  unfold deallocate.
  destruct (take_live addr wc (live a)) as [[hit rest]|] eqn:Hlive;
    [|discriminate].
  intros H (Hl & Hf & Hr & Hc & Hheld). injection H as <- _.
  destruct (take_live_hit _ _ _ _ _ Hlive) as [Hsum Hforall].
  destruct (Hforall Hl) as [Hhit Hrest].
  unfold arena_inv. cbn.
  split; [exact Hrest|].
  split; [apply free_list_insert_nonneg; [exact Hhit|exact Hf]|].
  split; [exact Hr|]. rewrite free_list_insert_words. lia.
Qed.

Lemma arena_run_inv (ops : list arena_op) :
  0 < granularity ->
  forall (a a' : ArenaAllocator) (w w' : world Pool),
    run ops a w = Ok (a', w') -> inv a -> inv a'.
Proof.
  intros Hg.
  induction ops as [|op ops IH]; intros a a' w w' H Hinv; cbn in H.
  - now injection H as <- _.
  - unfold bind in H.
    destruct (arena_step _ _ _ _ _ op a w) as [[a1 w1]|e] eqn:Hstep;
      [|discriminate H].
    apply (IH a1 a' w1 w' H). destruct op as [wc|addr wc]; cbn in Hstep.
    + unfold bind in Hstep.
      destruct (alloc wc a w) as [[[r a2] w2]|e] eqn:Halloc;
        [|discriminate Hstep].
      injection Hstep as <- _. cbn.
      now apply (allocate_inv _ _ _ _ _ _ Hg Halloc).
    + now apply (deallocate_inv _ _ _ _ _ _ Hstep).
Qed.

Lemma arena_inv_used_le_capacity (a : ArenaAllocator) :
  inv a -> 0 <= used_words a <= capacity_words a.
Proof.
  intros (Hlive & Hfree & Hroom & Hcap & Hheld).
  apply free_words_nonneg in Hfree. apply held_words_nonneg in Hlive. lia.
Qed.

Lemma run_from_fresh_inv
    (num_chunk_types : nat) (block_pool : pointer address)
    (sequence : pointer what) (lock : pointer address)
    (ops : list arena_op) (w w' : world Pool) (a : ArenaAllocator) :
  0 < granularity ->
  (a0 <- ArenaAllocator_new num_chunk_types block_pool sequence lock ;;
   run ops a0) w = Ok (a, w') ->
  inv a.
Proof.
  intros Hg. unfold bind. intros H.
  destruct (ArenaAllocator_new num_chunk_types block_pool sequence lock w)
    as [[a0 w0]|e] eqn:Hnew; [|discriminate H].
  apply (arena_run_inv ops Hg a0 a w0 w' H).
  exact (fresh_arena_inv _ _ _ _ _ _ _ Hnew).
Qed.

(** C10: at every observable point of an arena's lifetime, that is after
    its construction and after each allocate or deallocate that returned,
    used_words <= capacity_words.  The granularity to which allocate rounds
    is positive. *)
Theorem used_le_capacity_at_every_observable_point
    (num_chunk_types : nat) (block_pool : pointer address)
    (sequence : pointer what) (lock : pointer address)
    (ops : list arena_op) (w w' : world Pool) (a : ArenaAllocator) :
  0 < granularity ->
  (a0 <- ArenaAllocator_new num_chunk_types block_pool sequence lock ;;
   run ops a0) w = Ok (a, w') ->
  used_words a <= capacity_words a.
Proof.
  intros Hg H.
  apply arena_inv_used_le_capacity.
  exact (run_from_fresh_inv _ _ _ _ _ _ _ _ Hg H).
Qed.

(** The counters are kept as integers; [used_words] is at every observable
    point the total of the live spans, so it never goes below zero and a
    [size_t] holds it. *)
Lemma used_words_is_what_is_live
    (num_chunk_types : nat) (block_pool : pointer address)
    (sequence : pointer what) (lock : pointer address)
    (ops : list arena_op) (w w' : world Pool) (a : ArenaAllocator) :
  0 < granularity ->
  (a0 <- ArenaAllocator_new num_chunk_types block_pool sequence lock ;;
   run ops a0) w = Ok (a, w') ->
  used_words a = held_words (live a) /\ 0 <= used_words a.
Proof.
  intros Hg H.
  pose proof (run_from_fresh_inv _ _ _ _ _ _ _ _ Hg H) as Hinv.
  split; [|now apply arena_inv_used_le_capacity].
  destruct Hinv as (_ & _ & _ & _ & Hheld). now symmetry.
Qed.

(** What an allocation that succeeded leaves behind: the span at the head
    of the live spans, counted in [used_words] with its rounded size. *)
Lemma allocate_records_span (wc addr : Z) (a a1 : ArenaAllocator)
    (w w1 : world Pool) :
  alloc wc a w = Ok ((Allocated addr, a1), w1) ->
  0 < wc /\
  live a1 = {| live_address := addr; live_requested := wc;
               live_words := align_up granularity wc |} :: live a /\
  used_words a1 = used_words a + align_up granularity wc.
Proof.
  unfold allocate. destruct (wc <=? 0) eqn:Hwc; [discriminate|].
  apply Z.leb_gt in Hwc. set (n := align_up granularity wc).
  assert (Hcarve : forall b a1,
             carve wc n b = (Allocated addr, a1) ->
             live a1 = {| live_address := addr; live_requested := wc;
                          live_words := n |} :: live b /\
             used_words a1 = used_words b + n).
  { intros b b1. unfold carve. destruct (current_block b); [|discriminate].
    intros H. injection H as <- <-. now split. }
  destruct (take_first_fit n (free_list a)) as [[[ad sz] rest]|].
  - intros H. injection H as <- <- _. now repeat split.
  - destruct (has_room BytesPerWord n a).
    + intros H. unfold ret in H.
      assert (Hc : carve wc n a = (Allocated addr, a1)) by congruence.
      split; [exact Hwc|]. now apply Hcarve.
    + unfold bind.
      destruct (with_sequences _ w) as [[suggested w0]|e]; [|discriminate].
      destruct (choose_level block_overhead BytesPerWord suggested n)
        as [lvl|]; [|discriminate].
      destruct (request_block acquire_block lvl w0) as [[[base|] w2]|e];
        [|discriminate|discriminate].
      intros H. unfold ret in H.
      assert (Hc : carve wc n (install_block block_overhead BytesPerWord
                                             base lvl a)
                   = (Allocated addr, a1)) by congruence.
      split; [exact Hwc|]. now apply Hcarve in Hc.
Qed.

(** Round trip: giving back what an allocation returned puts [used_words]
    and the live spans back where they were before it, and capacity is as
    the allocation left it. *)
Lemma allocate_deallocate_round_trip (wc addr : Z)
    (a a1 : ArenaAllocator) (w w1 : world Pool) :
  alloc wc a w = Ok ((Allocated addr, a1), w1) ->
  exists a2,
    deallocate addr wc a1 w1 = Ok (a2, w1) /\
    used_words a2 = used_words a /\
    live a2 = live a /\
    capacity_words a2 = capacity_words a1 /\
    free_list a2
    = free_list_insert addr (align_up granularity wc) (free_list a1).
Proof.
  intros H. apply allocate_records_span in H as (Hwc & Hlive & Hused).
  unfold deallocate. rewrite Hlive. cbn [take_live live_address
    live_requested]. rewrite !Z.eqb_refl. cbn [andb].
  eexists. split; [reflexivity|]. cbn. repeat split. lia.
Qed.

(** No growth: the same request, made again after the round trip, is
    served from the free list: no block is asked of the pool and
    [capacity_words] stays. *)
Lemma reallocation_served_from_free_list (wc addr : Z)
    (a a1 a2 : ArenaAllocator) (w w1 : world Pool) :
  inv a1 ->
  alloc wc a w = Ok ((Allocated addr, a1), w1) ->
  deallocate addr wc a1 w1 = Ok (a2, w1) ->
  exists addr' a3,
    alloc wc a2 w1 = Ok ((Allocated addr', a3), w1) /\
    capacity_words a3 = capacity_words a1.
Proof.
  intros (_ & Hfree & _) Halloc Hdealloc.
  destruct (allocate_deallocate_round_trip _ _ _ _ _ _ Halloc)
    as (a2' & Hd & _ & _ & Hcap & Hfl).
  rewrite Hd in Hdealloc. injection Hdealloc as ->.
  apply allocate_records_span in Halloc as (Hwc & _).
  unfold allocate. apply Z.leb_gt in Hwc as ->.
  rewrite Hfl.
  destruct (take_first_fit_after_insert addr (align_up granularity wc)
              (free_list a1) Hfree) as ([ad sz] & rest & ->).
  do 2 eexists. split; [reflexivity|]. exact Hcap.
Qed.

End ArenaInvariant.

Lemma used_le_capacity_at_every_observable_point_witness :
  exists a w',
    (a0 <- ArenaAllocator_new 13 (Ptr 7) (Ptr anon_class) (Ptr 9) ;;
     arena_run bump_acquire 2 4 3 8
               [Allocate 10; Allocate 11; Deallocate 1014 11; Allocate 11;
                Deallocate 1004 10; Allocate 3; Allocate 200; Allocate 5;
                Allocate 4000]
               a0)
      {| sequences := g_chunk_alloc_sequence;
         pool := {| bump_next := 1000; bump_limit := 2000 |};
         pool_requests := [] |}
    = Ok (a, w') /\
    used_words a <= capacity_words a.
Proof.
  eexists. eexists. split.
  - vm_compute. reflexivity.
  - eapply (used_le_capacity_at_every_observable_point
              bump_acquire 2 4 3 8 13 (Ptr 7) (Ptr anon_class) (Ptr 9)
              [Allocate 10; Allocate 11; Deallocate 1014 11; Allocate 11;
               Deallocate 1004 10; Allocate 3; Allocate 200; Allocate 5;
               Allocate 4000]
              {| sequences := g_chunk_alloc_sequence;
                 pool := {| bump_next := 1000; bump_limit := 2000 |};
                 pool_requests := [] |}).
    + lia.
    + vm_compute. reflexivity.
Defined.

(* ------------------------------------------------------------------ *)
(** * Further properties of get_next_chunk_level *)

Lemma array_read_ok_iff {A} (a : list A) (k : Z) :
  (exists x, array_read a k = Ok x) <-> 0 <= k < Z.of_nat (List.length a).
Proof.
  split.
  - intros [x H]. unfold array_read in H.
    destruct (k <? 0) eqn:Hneg; [discriminate H|].
    apply Z.ltb_ge in Hneg.
    destruct (nth_error a (Z.to_nat k)) eqn:Hnth; [|discriminate H].
    assert (Hlt : (Z.to_nat k < List.length a)%nat)
      by (apply nth_error_Some; congruence).
    lia.
  - apply array_read_in_bounds.
Qed.

Lemma array_read_error {A} (a : list A) (k : Z) (e : vm_error) :
  array_read a k = Err e -> e = UndefinedBehaviour.
Proof.
  unfold array_read. destruct (k <? 0); [congruence|].
  destruct (nth_error a (Z.to_nat k)); congruence.
Qed.

Lemma array_read_nth_error {A} (a : list A) (k : Z) (x : A) :
  array_read a k = Ok x -> 0 <= k /\ nth_error a (Z.to_nat k) = Some x.
Proof.
  unfold array_read. destruct (k <? 0) eqn:Hneg; [discriminate|].
  apply Z.ltb_ge in Hneg.
  destruct (nth_error a (Z.to_nat k)); [|discriminate].
  intros H. injection H as ->. now split.
Qed.

(** X1: the calls of get_next_chunk_level that stay within defined
    behaviour are exactly those with a non-negative index on a sequence
    with num_entries > 0 whose array reaches the subscript
    min(i, num_entries - 1); every other call reads outside the array, and
    that is the only way the function fails. *)
Theorem get_next_chunk_level_defined_iff
    (this : ConstantChunkAllocSequence) (i : Z) :
  ((exists lvl, get_next_chunk_level this i = Ok lvl) <->
   (0 <= i /\ 0 < _num_entries this /\
    Z.min i (_num_entries this - 1)
      < Z.of_nat (List.length (_entries this)))) /\
  (forall e, get_next_chunk_level this i = Err e -> e = UndefinedBehaviour).
Proof.
  rewrite get_next_chunk_level_reads_entry_index, entry_index_min. split.
  - rewrite array_read_ok_iff. lia.
  - intros e. apply array_read_error.
Qed.

(** X2: num_entries <= 0 is what the constructor's assertion rejects, with
    the message "must not be empty."; on an object with such a count (a
    build without assertions constructs it) no call of
    get_next_chunk_level stays inside the array, whatever the index. *)
Theorem empty_sequence_rejected_and_unusable
    (array : list chklvl_t) (n : Z) :
  n <= 0 ->
  ConstantChunkAllocSequence_ctor array n
    = Err (AssertFailed "must not be empty.") /\
  forall i, get_next_chunk_level {| _entries := array; _num_entries := n |} i
            = Err UndefinedBehaviour.
Proof.
  intros Hn. split.
  - unfold ConstantChunkAllocSequence_ctor, assert, result_bind. cbn.
    now apply Z.ltb_ge in Hn as ->.
  - intros i. rewrite get_next_chunk_level_reads_entry_index, entry_index_min.
    cbn [_entries _num_entries]. unfold array_read.
    destruct (Z.min i (n - 1) <? 0) eqn:Hneg; [reflexivity|].
    apply Z.ltb_ge in Hneg. lia.
Qed.

Lemma empty_sequence_rejected_and_unusable_witness :
  ConstantChunkAllocSequence_ctor g_sequ_boot_class 0
    = Err (AssertFailed "must not be empty.") /\
  forall i, get_next_chunk_level
              {| _entries := g_sequ_boot_class; _num_entries := 0 |} i
            = Err UndefinedBehaviour.
Proof.
  apply (empty_sequence_rejected_and_unusable g_sequ_boot_class 0). lia.
Defined.

(** X3: a level that get_next_chunk_level returns is one of the first
    num_entries entries of the array: the function never makes up a level
    and never hands out an entry past the count it was given. *)
Theorem get_next_chunk_level_in_table
    (this : ConstantChunkAllocSequence) (i : Z) (lvl : chklvl_t) :
  get_next_chunk_level this i = Ok lvl ->
  In lvl (firstn (Z.to_nat (_num_entries this)) (_entries this)).
Proof.
  rewrite get_next_chunk_level_reads_entry_index. intros H.
  assert (Hdef : exists l, get_next_chunk_level this i = Ok l).
  { exists lvl. now rewrite get_next_chunk_level_reads_entry_index. }
  rewrite get_next_chunk_level_reads_entry_index, entry_index_min,
    array_read_ok_iff in Hdef.
  rewrite entry_index_min in H.
  apply array_read_nth_error in H as [Hk Hnth].
  apply nth_error_In with (n := Z.to_nat (Z.min i (_num_entries this - 1))).
  rewrite nth_error_firstn.
  destruct (Nat.ltb_spec (Z.to_nat (Z.min i (_num_entries this - 1)))
                         (Z.to_nat (_num_entries this))) as [_|Hge];
    [exact Hnth|lia].
Qed.

Lemma get_next_chunk_level_in_table_witness :
  In CHUNK_LEVEL_1M
     (firstn (Z.to_nat 1) [CHUNK_LEVEL_1M; CHUNK_LEVEL_256K]).
Proof.
  apply (get_next_chunk_level_in_table
           {| _entries := [CHUNK_LEVEL_1M; CHUNK_LEVEL_256K];
              _num_entries := 1 |} 9 CHUNK_LEVEL_1M).
  reflexivity.
Defined.

(* ------------------------------------------------------------------ *)
(** * Further properties of the static objects and the selector *)

Lemma static_object_after_initialization (w : what) :
  static_object g_chunk_alloc_sequence w
  = Some {| _entries := g_sequ w;
            _num_entries := Z.of_nat (List.length (g_sequ w)) |}.
Proof. destruct w; reflexivity. Qed.

Lemma g_sequ_nonempty (w : what) : 0 < Z.of_nat (List.length (g_sequ w)).
Proof. destruct w; cbn; lia. Qed.

Lemma selector_cases (St : Type) (t : MetaspaceType) (c : bool) (s : St) :
  recognized t = true ->
  exists w, alloc_sequence_by_space_type t c s = Ok (Ptr w, s).
Proof.
  intros Hrec. destruct t; try discriminate Hrec; destruct c; eexists;
    reflexivity.
Qed.

Lemma next_level_for_reads
    (t : MetaspaceType) (c : bool) (w : what) (i : Z) :
  alloc_sequence_by_space_type t c g_chunk_alloc_sequence
    = Ok (Ptr w, g_chunk_alloc_sequence) ->
  next_level_for t c i g_chunk_alloc_sequence
  = lift_result
      (array_read (g_sequ w)
                  (Z.min i (Z.of_nat (List.length (g_sequ w)) - 1)))
      g_chunk_alloc_sequence.
Proof.
  intros H. unfold next_level_for, bind. rewrite H.
  unfold virtual_get_next_chunk_level.
  rewrite static_object_after_initialization.
  now rewrite get_next_chunk_level_reads_entry_index, entry_index_min.
Qed.

(** X4: static initialisation passes every constructor assertion whatever
    the store holds beforehand, and adds exactly the eight objects, in
    source order; afterwards each name designates an object over its own
    table whose num_entries is the number of entries of that table, which
    is positive. *)
Theorem static_initialization_well_formed (sigma : statics) :
  static_initialization sigma = Ok (tt, sigma ++ g_chunk_alloc_sequence) /\
  forall w,
    static_object g_chunk_alloc_sequence w
    = Some {| _entries := g_sequ w;
              _num_entries := Z.of_nat (List.length (g_sequ w)) |} /\
    0 < Z.of_nat (List.length (g_sequ w)).
Proof.
  split.
  - unfold static_initialization, bind, DEFINE_CLASS_FOR_ARRAY, bind,
      lift_result.
    cbn. repeat rewrite <- app_assoc. reflexivity.
  - intros w. split;
      [apply static_object_after_initialization|apply g_sequ_nonempty].
Qed.

(** X5: the selector returns normally exactly for the four space types its
    switches name; what it returns is then never the null pointer (the
    trailing return NULL is not reached) and the state is the one it was
    called in. *)
Theorem selector_returns_iff_recognized
    (St : Type) (t : MetaspaceType) (c : bool) (s : St) :
  (recognized t = true <->
   exists p, alloc_sequence_by_space_type t c s = Ok (p, s)) /\
  (forall p s', alloc_sequence_by_space_type t c s = Ok (p, s') ->
                p <> NULL /\ s' = s).
Proof.
  split; [split|].
  - intros Hrec. destruct (selector_cases St t c s Hrec) as [w Hw].
    now exists (Ptr w).
  - intros [p Hp]. destruct t; try reflexivity. destruct c; discriminate Hp.
  - intros p s' H.
    destruct t, c; cbn in H; try discriminate H;
      injection H as <- <-; split; (discriminate || reflexivity).
Qed.

(** X6: for a recognized space type and a non-negative call index, select
    then ask never leaves defined behaviour once the static objects exist:
    it returns entry min(i, len - 1) of the selected table and changes
    nothing. *)
Theorem selected_sequence_always_answers
    (t : MetaspaceType) (c : bool) (i : Z) :
  recognized t = true -> 0 <= i ->
  exists w lvl,
    alloc_sequence_by_space_type t c g_chunk_alloc_sequence
      = Ok (Ptr w, g_chunk_alloc_sequence) /\
    array_read (g_sequ w) (Z.min i (Z.of_nat (List.length (g_sequ w)) - 1))
      = Ok lvl /\
    next_level_for t c i g_chunk_alloc_sequence
      = Ok (lvl, g_chunk_alloc_sequence).
Proof.
  intros Hrec Hi.
  destruct (selector_cases statics t c g_chunk_alloc_sequence Hrec)
    as [w Hw].
  pose proof (g_sequ_nonempty w) as Hlen.
  destruct (array_read_in_bounds (g_sequ w)
              (Z.min i (Z.of_nat (List.length (g_sequ w)) - 1)))
    as [lvl Hlvl]; [lia|].
  exists w, lvl. split; [exact Hw|]. split; [exact Hlvl|].
  rewrite (next_level_for_reads t c w i Hw). unfold lift_result.
  now rewrite Hlvl.
Qed.

Lemma selected_sequence_always_answers_witness :
  exists w lvl,
    alloc_sequence_by_space_type ReflectionMetaspaceType false
                                 g_chunk_alloc_sequence
      = Ok (Ptr w, g_chunk_alloc_sequence) /\
    array_read (g_sequ w) (Z.min 6 (Z.of_nat (List.length (g_sequ w)) - 1))
      = Ok lvl /\
    next_level_for ReflectionMetaspaceType false 6 g_chunk_alloc_sequence
      = Ok (lvl, g_chunk_alloc_sequence).
Proof.
  apply (selected_sequence_always_answers ReflectionMetaspaceType false 6).
  - reflexivity.
  - lia.
Defined.

(** X7: the objects the selector can return are the seven other than
    g_chunk_alloc_sequence_boot_class: that object is defined and
    initialised but no space type and kind selects it. *)
Theorem selector_image (St : Type) (s : St) (w : what) :
  (exists t c, alloc_sequence_by_space_type t c s = Ok (Ptr w, s)) <->
  w <> boot_class.
Proof.
  split.
  - intros (t & c & H) ->.
    destruct t, c; cbn in H; discriminate H.
  - intros Hw. destruct w.
    + now exists StandardMetaspaceType, false.
    + now exists StandardMetaspaceType, true.
    + now exists UnsafeAnonymousMetaspaceType, false.
    + now exists UnsafeAnonymousMetaspaceType, true.
    + now exists ReflectionMetaspaceType, false.
    + now exists ReflectionMetaspaceType, true.
    + now exists BootMetaspaceType, false.
    + congruence.
Qed.

(** X8: among the recognized space types, BootMetaspaceType is the only
    one for which the class and non-class lookups give the same result;
    for Standard, Reflection and UnsafeAnonymous the two kinds get two
    different objects. *)
Theorem kinds_share_an_object_only_for_boot
    (St : Type) (t : MetaspaceType) (s : St) :
  recognized t = true ->
  (alloc_sequence_by_space_type t true s
   = alloc_sequence_by_space_type t false s
   <-> t = BootMetaspaceType).
Proof.
  intros Hrec. destruct t; try discriminate Hrec; cbn; split; intros H;
    try reflexivity; discriminate H.
Qed.

Lemma kinds_share_an_object_only_for_boot_witness :
  alloc_sequence_by_space_type StandardMetaspaceType true tt
  = alloc_sequence_by_space_type StandardMetaspaceType false tt
  <-> StandardMetaspaceType = BootMetaspaceType.
Proof.
  apply (kinds_share_an_object_only_for_boot unit StandardMetaspaceType tt).
  reflexivity.
Defined.

(* ------------------------------------------------------------------ *)
(** * The schedules the selector hands out *)

Lemma virtual_reads (w : what) (i : Z) :
  virtual_get_next_chunk_level (Ptr w) i g_chunk_alloc_sequence
  = lift_result
      (array_read (g_sequ w)
                  (Z.min i (Z.of_nat (List.length (g_sequ w)) - 1)))
      g_chunk_alloc_sequence.
Proof.
  unfold virtual_get_next_chunk_level.
  rewrite static_object_after_initialization.
  now rewrite get_next_chunk_level_reads_entry_index, entry_index_min.
Qed.

Lemma standard_levels (c : bool) (i : Z) :
  0 <= i ->
  next_level_for StandardMetaspaceType c i g_chunk_alloc_sequence
  = Ok ((if i <? 4
         then if c then CHUNK_LEVEL_2K else CHUNK_LEVEL_4K
         else CHUNK_LEVEL_16K),
        g_chunk_alloc_sequence).
Proof.
  intros Hi.
  destruct c;
    [rewrite (next_level_for_reads StandardMetaspaceType true
                                   standard_class i eq_refl)
    |rewrite (next_level_for_reads StandardMetaspaceType false
                                   standard_non_class i eq_refl)];
    (destruct (Z.ltb_spec i 4) as [Hlt|Hge];
     [assert (Hc : i = 0 \/ i = 1 \/ i = 2 \/ i = 3) by lia;
      destruct Hc as [->|[->|[->| ->]]]; reflexivity
     |rewrite Z.min_r by (cbn; lia); reflexivity]).
Qed.

Lemma reflection_levels (c : bool) (i : Z) :
  0 <= i ->
  next_level_for ReflectionMetaspaceType c i g_chunk_alloc_sequence
  = Ok ((if c then CHUNK_LEVEL_1K
         else if i =? 0 then CHUNK_LEVEL_2K else CHUNK_LEVEL_1K),
        g_chunk_alloc_sequence).
Proof.
  intros Hi. destruct c.
  - rewrite (next_level_for_reads ReflectionMetaspaceType true
                                  refl_class i eq_refl).
    rewrite Z.min_r by (cbn; lia). reflexivity.
  - rewrite (next_level_for_reads ReflectionMetaspaceType false
                                  refl_non_class i eq_refl).
    destruct (Z.eqb_spec i 0) as [->|Hne]; [reflexivity|].
    rewrite Z.min_r by (cbn; lia). reflexivity.
Qed.

Lemma anon_levels (c : bool) (i : Z) :
  0 <= i ->
  next_level_for UnsafeAnonymousMetaspaceType c i g_chunk_alloc_sequence
  = Ok (CHUNK_LEVEL_1K, g_chunk_alloc_sequence).
Proof.
  intros Hi.
  destruct c;
    [rewrite (next_level_for_reads UnsafeAnonymousMetaspaceType true
                                   anon_class i eq_refl)
    |rewrite (next_level_for_reads UnsafeAnonymousMetaspaceType false
                                   anon_non_class i eq_refl)];
    rewrite Z.min_r by (cbn; lia); reflexivity.
Qed.

Lemma boot_levels (c : bool) (i : Z) :
  0 <= i ->
  next_level_for BootMetaspaceType c i g_chunk_alloc_sequence
  = Ok ((if i =? 0 then CHUNK_LEVEL_4M else CHUNK_LEVEL_1M),
        g_chunk_alloc_sequence).
Proof.
  intros Hi.
  destruct c;
    [rewrite (next_level_for_reads BootMetaspaceType true
                                   boot_non_class i eq_refl)
    |rewrite (next_level_for_reads BootMetaspaceType false
                                   boot_non_class i eq_refl)];
    (destruct (Z.eqb_spec i 0) as [->|Hne]; [reflexivity|];
     rewrite Z.min_r by (cbn; lia); reflexivity).
Qed.

(** X9: a standard arena is given its small level for its first four
    chunks (2K for the class kind, 4K otherwise) and 16K for every chunk
    after them. *)
Theorem standard_schedule (c : bool) (i : Z) :
  0 <= i ->
  next_level_for StandardMetaspaceType c i g_chunk_alloc_sequence
  = Ok ((if i <? 4
         then if c then CHUNK_LEVEL_2K else CHUNK_LEVEL_4K
         else CHUNK_LEVEL_16K),
        g_chunk_alloc_sequence).
Proof. apply standard_levels. Qed.

Lemma standard_schedule_witness :
  next_level_for StandardMetaspaceType true 4 g_chunk_alloc_sequence
  = Ok ((if 4 <? 4
         then if true then CHUNK_LEVEL_2K else CHUNK_LEVEL_4K
         else CHUNK_LEVEL_16K),
        g_chunk_alloc_sequence).
Proof. apply (standard_schedule true 4). lia. Defined.

(** X10: a reflection arena of the class kind is given 1K for every
    chunk; one of the non-class kind is given 2K for its first chunk and
    1K for every later one. *)
Theorem reflection_schedule (c : bool) (i : Z) :
  0 <= i ->
  next_level_for ReflectionMetaspaceType c i g_chunk_alloc_sequence
  = Ok ((if c then CHUNK_LEVEL_1K
         else if i =? 0 then CHUNK_LEVEL_2K else CHUNK_LEVEL_1K),
        g_chunk_alloc_sequence).
Proof. apply reflection_levels. Qed.

Lemma reflection_schedule_witness :
  next_level_for ReflectionMetaspaceType false 1 g_chunk_alloc_sequence
  = Ok ((if false then CHUNK_LEVEL_1K
         else if 1 =? 0 then CHUNK_LEVEL_2K else CHUNK_LEVEL_1K),
        g_chunk_alloc_sequence).
Proof. apply (reflection_schedule false 1). lia. Defined.

(** X11: whatever the recognized space type and kind, the level is settled
    from the fifth chunk on: every call index from 4 up gets the level of
    call index 4. *)
Theorem every_schedule_settles_by_fifth_chunk
    (t : MetaspaceType) (c : bool) (i : Z) :
  recognized t = true -> 4 <= i ->
  next_level_for t c i g_chunk_alloc_sequence
  = next_level_for t c 4 g_chunk_alloc_sequence.
Proof.
  intros Hrec Hi.
  destruct (selector_cases statics t c g_chunk_alloc_sequence Hrec)
    as [w Hw].
  rewrite (next_level_for_reads t c w i Hw),
    (next_level_for_reads t c w 4 Hw).
  assert (Hlen : Z.of_nat (List.length (g_sequ w)) - 1 <= 4)
    by (destruct w; cbn; lia).
  rewrite !Z.min_r by lia. reflexivity.
Qed.

Lemma every_schedule_settles_by_fifth_chunk_witness :
  next_level_for StandardMetaspaceType false 100 g_chunk_alloc_sequence
  = next_level_for StandardMetaspaceType false 4 g_chunk_alloc_sequence.
Proof.
  apply (every_schedule_settles_by_fifth_chunk StandardMetaspaceType false 100).
  - reflexivity.
  - lia.
Defined.

(** X12: both boot tables, the one in use and the one defined for the
    class kind, hold only levels beyond 64K, the typical commit granule
    size their comment speaks of: whatever the non-negative call index,
    the level either object returns names more than 64K bytes. *)
Theorem boot_tables_beyond_commit_granule (w : what) (i : Z) :
  w = boot_non_class \/ w = boot_class -> 0 <= i ->
  exists lvl,
    virtual_get_next_chunk_level (Ptr w) i g_chunk_alloc_sequence
      = Ok (lvl, g_chunk_alloc_sequence) /\
    64 * K < chunk_byte_size lvl.
Proof.
  intros Hw Hi. rewrite virtual_reads.
  destruct Hw as [-> | ->];
    (destruct (Z.eqb_spec i 0) as [->|Hne];
     [eexists; split; [reflexivity|reflexivity]
     |rewrite Z.min_r by (cbn; lia);
      eexists; split; [reflexivity|reflexivity]]).
Qed.

Lemma boot_tables_beyond_commit_granule_witness :
  exists lvl,
    virtual_get_next_chunk_level (Ptr boot_class) 3 g_chunk_alloc_sequence
      = Ok (lvl, g_chunk_alloc_sequence) /\
    64 * K < chunk_byte_size lvl.
Proof.
  apply (boot_tables_beyond_commit_granule boot_class 3).
  - now right.
  - lia.
Defined.

(** X13: an arena of a recognized space type other than Boot is never
    given a level above 16K, at any non-negative call index and for either
    kind. *)
Theorem only_boot_gets_more_than_16K
    (t : MetaspaceType) (c : bool) (i : Z) :
  recognized t = true -> t <> BootMetaspaceType -> 0 <= i ->
  exists lvl,
    next_level_for t c i g_chunk_alloc_sequence
      = Ok (lvl, g_chunk_alloc_sequence) /\
    chunk_byte_size lvl <= 16 * K.
Proof.
  intros Hrec Hboot Hi. destruct t; try discriminate Hrec.
  - rewrite (standard_levels c i Hi). eexists. split; [reflexivity|].
    destruct (i <? 4), c; vm_compute; discriminate.
  - rewrite (reflection_levels c i Hi). eexists. split; [reflexivity|].
    destruct c, (i =? 0); vm_compute; discriminate.
  - rewrite (anon_levels c i Hi). eexists. split; [reflexivity|].
    vm_compute. discriminate.
  - congruence.
Qed.

Lemma only_boot_gets_more_than_16K_witness :
  exists lvl,
    next_level_for StandardMetaspaceType false 7 g_chunk_alloc_sequence
      = Ok (lvl, g_chunk_alloc_sequence) /\
    chunk_byte_size lvl <= 16 * K.
Proof.
  apply (only_boot_gets_more_than_16K StandardMetaspaceType false 7).
  - reflexivity.
  - discriminate.
  - lia.
Defined.

(** X14: at every non-negative call index and for every recognized space
    type, the class kind is given a level no larger than the non-class
    kind is given at that index. *)
Theorem class_kind_never_larger (t : MetaspaceType) (i : Z) :
  recognized t = true -> 0 <= i ->
  exists lc ln,
    next_level_for t true i g_chunk_alloc_sequence
      = Ok (lc, g_chunk_alloc_sequence) /\
    next_level_for t false i g_chunk_alloc_sequence
      = Ok (ln, g_chunk_alloc_sequence) /\
    chunk_byte_size lc <= chunk_byte_size ln.
Proof.
  intros Hrec Hi. destruct t; try discriminate Hrec.
  - rewrite !(standard_levels _ i Hi). do 2 eexists.
    split; [reflexivity|]. split; [reflexivity|].
    destruct (i <? 4); vm_compute; discriminate.
  - rewrite !(reflection_levels _ i Hi). do 2 eexists.
    split; [reflexivity|]. split; [reflexivity|].
    destruct (i =? 0); vm_compute; discriminate.
  - rewrite !(anon_levels _ i Hi). do 2 eexists.
    split; [reflexivity|]. split; [reflexivity|].
    vm_compute. discriminate.
  - rewrite !(boot_levels _ i Hi). do 2 eexists.
    split; [reflexivity|]. split; [reflexivity|].
    destruct (i =? 0); vm_compute; discriminate.
Qed.

Lemma class_kind_never_larger_witness :
  exists lc ln,
    next_level_for StandardMetaspaceType true 2 g_chunk_alloc_sequence
      = Ok (lc, g_chunk_alloc_sequence) /\
    next_level_for StandardMetaspaceType false 2 g_chunk_alloc_sequence
      = Ok (ln, g_chunk_alloc_sequence) /\
    chunk_byte_size lc <= chunk_byte_size ln.
Proof.
  apply (class_kind_never_larger StandardMetaspaceType 2).
  - reflexivity.
  - lia.
Defined.
